(** * pokemon-seeker: the page component of [src/app/page.tsx]

    A shallow embedding of [PokemonPage]: its view state, the two fetch
    routines, the search handler and the parts of the card rendering that
    compute a value (header colour, abilities line).

    - A JavaScript string is the list of its UTF-16 code units.
    - The state setters of [useState] are events of a trace; the state at
      any moment is the initial state with the events so far applied.
    - An [async] routine is its trace together with its outcome (fulfilled
      with a value, or rejected), one routine at a time; two lookups in
      flight at once are composed from their traces by an explicit
      schedule.  The remote API is a parameter. *)

From Stdlib Require Import NArith Ascii String.
From stdpp Require Import gmap list.

(** ** JavaScript strings *)

Module JS.

Local Open Scope N_scope.

(** A string is its sequence of UTF-16 code units (each below 65536; no
    definition below depends on the bound). *)
Abbreviation jsstring := (list N).

(** A string literal of the source; every literal of [page.tsx] is ASCII. *)
Definition lit (s : string) : jsstring :=
  map N_of_ascii (list_ascii_of_string s).

(** ECMAScript [WhiteSpace] and [LineTerminator] code points, the ones
    [String.prototype.trim] strips.  All of them are in the basic plane. *)
Definition isWhiteSpace (c : N) : bool :=
  (c =? 0x0009) || (c =? 0x000B) || (c =? 0x000C) || (c =? 0x0020) ||
  (c =? 0x00A0) || (c =? 0xFEFF) || (c =? 0x1680) ||
  ((0x2000 <=? c) && (c <=? 0x200A)) ||
  (c =? 0x202F) || (c =? 0x205F) || (c =? 0x3000) ||
  (c =? 0x000A) || (c =? 0x000D) || (c =? 0x2028) || (c =? 0x2029).

(** [s.trimStart()] *)
Fixpoint trimStart (s : jsstring) : jsstring :=
  match s with
  | [] => []
  | c :: s' => if isWhiteSpace c then trimStart s' else s
  end.

(** [s.trimEnd()] *)
Definition trimEnd (s : jsstring) : jsstring :=
  reverse (trimStart (reverse s)).

(** [s.trim()] *)
Definition trim (s : jsstring) : jsstring := trimEnd (trimStart s).

(** [ToBoolean] of a string: the empty string is the only falsy one. *)
Definition truthy (s : jsstring) : bool :=
  match s with [] => false | _ :: _ => true end.

(** [a || b] on strings. *)
Definition or_else (a b : jsstring) : jsstring := if truthy a then a else b.

(** Is [p] a prefix of [s]? *)
Fixpoint startsWith (p s : jsstring) : bool :=
  match p, s with
  | [], _ => true
  | _ :: _, [] => false
  | a :: p', b :: s' => (a =? b) && startsWith p' s'
  end.

(** [s.replace(pat, rep)] with a string pattern: only the FIRST occurrence
    of [pat] is replaced ([rep] is taken literally: the replacement used in
    [page.tsx] has no [$]). *)
Fixpoint replace (pat rep s : jsstring) : jsstring :=
  if startsWith pat s then rep ++ drop (length pat) s
  else match s with
       | [] => []
       | c :: s' => c :: replace pat rep s'
       end.

(** Replacement of every occurrence of the code unit [a] by [b]: what
    [s.replaceAll(a, b)] or [s.replace(/a/g, b)] does for a one-unit
    pattern.  The source does not call it; it is the specification that
    the abilities line is compared with. *)
Definition replaceEvery (a b : N) (s : jsstring) : jsstring :=
  map (fun c => if c =? a then b else c) s.

(** [l.join(sep)] on an array of strings. *)
Fixpoint join (sep : jsstring) (l : list jsstring) : jsstring :=
  match l with
  | [] => []
  | [s] => s
  | s :: l' => s ++ sep ++ join sep l'
  end.

(** Lower-casing of the ASCII letters.  It agrees with
    [String.prototype.toLowerCase] on every string of ASCII code units, and
    instantiates the [toLowerCase] parameter below on such inputs. *)
Definition asciiToLowerCase (s : jsstring) : jsstring :=
  map (fun c => if (0x41 <=? c) && (c <=? 0x5A) then c + 0x20 else c) s.

End JS.
Import JS.

Arguments lit : simpl never.

Definition hyphen : N := 0x2D%N.
Definition space : N := 0x20%N.

(** ** The data of [page.tsx] *)

(** [type Pokemon]: the fields the component reads.  The nested one-field
    objects [{type: {name}}] and [{ability: {name}}] are kept as records;
    the creature's own [name] is [pname], the inner [name] keeps its name. *)
Record Named := { name : jsstring }.
Record TypeSlot := { type : Named }.
Record AbilitySlot := { ability : Named }.
Record OfficialArtwork := { artwork_front_default : jsstring }.
Record Sprites := {
  other_official_artwork : OfficialArtwork;
  front_default : jsstring
}.
Record Pokemon := {
  id : Z;
  pname : jsstring;
  types : list TypeSlot;
  height : Z;
  weight : Z;
  abilities : list AbilitySlot;
  sprites : Sprites
}.

(** [const typeColors: Record<string, string>], in source order
    ([Object.entries] yields the buttons in this order). *)
Definition typeColors_entries : list (jsstring * jsstring) :=
  [ (lit "fire",     lit "bg-[#F08030]");
    (lit "water",    lit "bg-[#6890F0]");
    (lit "grass",    lit "bg-[#78C850]");
    (lit "electric", lit "bg-[#F8D030]");
    (lit "psychic",  lit "bg-[#F85888]");
    (lit "ice",      lit "bg-[#98D8D8]");
    (lit "dragon",   lit "bg-[#7038F8]");
    (lit "dark",     lit "bg-[#705848]");
    (lit "fairy",    lit "bg-[#EE99AC]");
    (lit "normal",   lit "bg-[#A8A878]");
    (lit "fighting", lit "bg-[#C03028]");
    (lit "flying",   lit "bg-[#A890F0]");
    (lit "poison",   lit "bg-[#A040A0]");
    (lit "ground",   lit "bg-[#E0C068]");
    (lit "rock",     lit "bg-[#B8A038]");
    (lit "bug",      lit "bg-[#A8B820]");
    (lit "ghost",    lit "bg-[#705898]");
    (lit "steel",    lit "bg-[#B8B8D0]") ].

(** The own properties of the table, as a finite map. *)
Definition typeColors_own : gmap (list N) (list N) :=
  list_to_map typeColors_entries.

(** The table is a plain object, so reading a property of it goes on to
    [Object.prototype] when the table has no own property of that name.
    These are the string-named properties of [Object.prototype]. *)
Definition objectPrototype : list jsstring :=
  [ lit "constructor"; lit "hasOwnProperty"; lit "isPrototypeOf";
    lit "propertyIsEnumerable"; lit "toLocaleString"; lit "toString";
    lit "valueOf"; lit "__proto__"; lit "__defineGetter__";
    lit "__defineSetter__"; lit "__lookupGetter__"; lit "__lookupSetter__" ].

(** What reading a property of the table gives: one of its own strings, or
    the value [Object.prototype] has under that name (a function, and for
    [__proto__] the prototype object itself): not a string, and truthy. *)
Inductive PropValue :=
| OwnString (s : jsstring)
| Inherited (k : jsstring).

#[global] Instance PropValue_eq_dec : EqDecision PropValue.
Proof. solve_decision. Defined.

(** [typeColors[k]]; [None] is [undefined]. *)
Definition typeColors (k : jsstring) : option PropValue :=
  match typeColors_own !! k with
  | Some c => Some (OwnString c)
  | None =>
      if bool_decide (k ∈ objectPrototype) then Some (Inherited k) else None
  end.

Definition fallbackColor : jsstring := lit "bg-gray-500".

(** ** Rendering of one card *)

(** [const primaryType = pokemon.types[0].type.name]; reading [.type] of
    [undefined] throws when [types] is empty, which is [None] here. *)
Definition primaryType (p : Pokemon) : option jsstring :=
  match types p with
  | [] => None
  | t :: _ => Some (name (type t))
  end.

(** [typeColors[primaryType] || 'bg-gray-500']: a missing key reads as
    [undefined], which is falsy, as the empty string would be; an inherited
    value is truthy and is what the header gets in place of a class name. *)
Definition colorOf (k : jsstring) : PropValue :=
  match typeColors k with
  | Some (OwnString c) => OwnString (or_else c fallbackColor)
  | Some (Inherited i) => Inherited i
  | None => OwnString fallbackColor
  end.

Definition typeColor (p : Pokemon) : option PropValue :=
  colorOf <$> primaryType p.

(** [pokemon.abilities.map((a) => a.ability.name.replace('-', ' ')).join(', ')] *)
Definition abilitiesLine (p : Pokemon) : jsstring :=
  join (lit ", ")
       (map (fun a => replace (lit "-") (lit " ") (name (ability a)))
            (abilities p)).

(** The line the specification describes: every hyphen of every ability
    name turned into a space. *)
Definition abilitiesLine_spec (p : Pokemon) : jsstring :=
  join (lit ", ")
       (map (fun a => replaceEvery hyphen space (name (ability a)))
            (abilities p)).


(** ** View state *)

(** The four [useState] cells of [PokemonPage]. *)
Record State := {
  searchTerm : jsstring;
  pokemonList : list Pokemon;
  isLoading : bool;
  error : option jsstring
}.

(** The initial values given to [useState]. *)
Definition initialState : State :=
  {| searchTerm := []; pokemonList := []; isLoading := false; error := None |}.

(** What a routine does to the outside, in order: calls of the four state
    setters, requests handed to [fetch], and [e.preventDefault()]. *)
Inductive Event :=
| SetSearchTerm (s : jsstring)
| SetPokemonList (l : list Pokemon)
| SetIsLoading (b : bool)
| SetError (e : option jsstring)
| Fetch (url : jsstring)
| PreventDefault.

Definition apply (st : State) (e : Event) : State :=
  match e with
  | SetSearchTerm s =>
      {| searchTerm := s; pokemonList := pokemonList st;
         isLoading := isLoading st; error := error st |}
  | SetPokemonList l =>
      {| searchTerm := searchTerm st; pokemonList := l;
         isLoading := isLoading st; error := error st |}
  | SetIsLoading b =>
      {| searchTerm := searchTerm st; pokemonList := pokemonList st;
         isLoading := b; error := error st |}
  | SetError e =>
      {| searchTerm := searchTerm st; pokemonList := pokemonList st;
         isLoading := isLoading st; error := e |}
  | Fetch _ | PreventDefault => st
  end.

(** The state after a trace. *)
Definition run (st : State) (tr : list Event) : State := foldl apply st tr.

Definition isFetch (e : Event) : bool :=
  match e with Fetch _ => true | _ => false end.

(** The URLs requested along a trace, in order. *)
Definition requests (tr : list Event) : list jsstring :=
  omap (fun e => match e with Fetch u => Some u | _ => None end) tr.

(** ** Asynchronous routines *)

(** An [async] routine run to settlement: the events it caused, and its
    outcome, [Some v] when the promise is fulfilled with [v] and [None] when
    it is rejected (no handler of [page.tsx] reads the reason). *)
Record Async (A : Type) := MkAsync {
  trace : list Event;
  outcome : option A
}.
Arguments MkAsync {A} _ _.
Arguments trace {A} _.
Arguments outcome {A} _.

#[global] Instance Async_ret : MRet Async := fun A x => MkAsync [] (Some x).

#[global] Instance Async_bind : MBind Async := fun A B f m =>
  match outcome m with
  | Some x => MkAsync (trace m ++ trace (f x)) (outcome (f x))
  | None => MkAsync (trace m) None
  end.

(** [throw new Error(...)] *)
Definition throw {A} : Async A := MkAsync [] None.

Definition emit (e : Event) : Async () := MkAsync [e] (Some ()).

(** [try { body } catch { handler } finally { final }] *)
Definition try_catch_finally (body handler final : Async ()) : Async () :=
  let guarded :=
    match outcome body with
    | Some _ => body
    | None => MkAsync (trace body ++ trace handler) (outcome handler)
    end in
  MkAsync (trace guarded ++ trace final)
          (match outcome final with
           | Some _ => outcome guarded
           | None => None
           end).

(** A call of an async function whose promise is dropped (not awaited):
    its effects happen, its outcome is not looked at. *)
Definition spawn {A} (m : Async A) : Async () := MkAsync (trace m) (Some ()).

(** [Promise.all(ps)]: every promise of [ps] has been started; the result
    is the list of their values in the order of [ps], or a rejection as
    soon as one of them rejects. *)
Definition promise_all {A} (ps : list (Async A)) : Async (list A) :=
  MkAsync (concat (trace <$> ps)) (mapM outcome ps).

(** ** The remote API *)

(** A [Response]: its status, and what [response.json()] gives, [None] when
    the body does not parse.  Bodies are taken at the types [page.tsx]
    reads them at. *)
Record Response (A : Type) := MkResponse {
  status : N;
  body : option A
}.
Arguments MkResponse {A} _ _.
Arguments status {A} _.
Arguments body {A} _.

(** [response.ok]: the status is in the range 200-299. *)
Definition ok {A} (r : Response A) : bool :=
  ((200 <=? status r) && (status r <=? 299))%N.

(** The body of [GET /type/{type}]: [{pokemon: [{pokemon: {url}}, ...]}]. *)
Record Ref := { url : jsstring }.
Record Member := { pokemon_ref : Ref }.
Record TypeData := { pokemon : list Member }.

(** The server and the network between: what [fetch(url)] settles to,
    [None] when the request itself rejects. *)
Record Remote := {
  getPokemon : jsstring -> option (Response Pokemon);
  getType : jsstring -> option (Response TypeData)
}.

Definition pokemonEndpoint : jsstring := lit "https://pokeapi.co/api/v2/pokemon/".
Definition typeEndpoint : jsstring := lit "https://pokeapi.co/api/v2/type/".
Definition notFoundMessage : jsstring :=
  lit "Pokemon not found. Please try another name.".
Definition typeFailedMessage : jsstring :=
  lit "Failed to load Pokemon by type. Please try again.".

(** ** The routines of [PokemonPage] *)

Section Page.

(** [String.prototype.toLowerCase]. *)
Variable toLowerCase : jsstring -> jsstring.
Variable api : Remote.

Definition setSearchTerm (s : jsstring) : Async () := emit (SetSearchTerm s).
Definition setPokemonList (l : list Pokemon) : Async () := emit (SetPokemonList l).
Definition setIsLoading (b : bool) : Async () := emit (SetIsLoading b).
Definition setError (e : option jsstring) : Async () := emit (SetError e).
Definition preventDefault : Async () := emit PreventDefault.

(** [await fetch(url)] at the two kinds of endpoint. *)
Definition fetchPokemon (u : jsstring) : Async (Response Pokemon) :=
  MkAsync [Fetch u] (getPokemon api u).
Definition fetchType (u : jsstring) : Async (Response TypeData) :=
  MkAsync [Fetch u] (getType api u).

(** [await response.json()] *)
Definition json {A} (r : Response A) : Async A := MkAsync [] (body r).

Definition fetchPokemonByName (name : jsstring) : Async () :=
  try_catch_finally
    (setIsLoading true;;
     setError None;;
     response ← fetchPokemon (pokemonEndpoint ++ toLowerCase name);
     (if negb (ok response) then throw else mret ());;
     data ← json response;
     setPokemonList [data])
    (setError (Some notFoundMessage);;
     setPokemonList [])
    (setIsLoading false).

(** [data.pokemon.slice(0, 20).map((p) => p.pokemon.url)] *)
Definition pokemonUrls (data : TypeData) : list jsstring :=
  (fun p => url (pokemon_ref p)) <$> take 20 (pokemon data).

(** [async (url) => { const res = await fetch(url); return res.json(); }] *)
Definition fetchMember (u : jsstring) : Async Pokemon :=
  res ← fetchPokemon u;
  json res.

Definition fetchPokemonByType (type : jsstring) : Async () :=
  try_catch_finally
    (setIsLoading true;;
     setError None;;
     response ← fetchType (typeEndpoint ++ toLowerCase type);
     (if negb (ok response) then throw else mret ());;
     data ← json response;
     pokemonData ← promise_all (fetchMember <$> pokemonUrls data);
     setPokemonList pokemonData)
    (setError (Some typeFailedMessage);;
     setPokemonList [])
    (setIsLoading false).

(** [handleSearch], run in the state [st] the component was rendered with. *)
Definition handleSearch (st : State) : Async () :=
  preventDefault;;
  if truthy (trim (searchTerm st))
  then spawn (fetchPokemonByName (searchTerm st))
  else mret ().

(** [onChange] of the search box. *)
Definition handleChange (value : jsstring) : Async () := setSearchTerm value.

(** The effect run on mount. *)
Definition onMount : Async () := spawn (fetchPokemonByType (lit "fire")).

(** A type button. *)
Definition onTypeClick (type : jsstring) : Async () :=
  spawn (fetchPokemonByType type).

End Page.

(** ** Derived views of the routines *)

(** The state a routine leaves behind when it has settled. *)
Definition settled (st : State) (m : Async ()) : State := run st (trace m).

(** What the [try] block of [fetchPokemonByName] gets from the request to
    [u]: the parsed creature, or nothing when the request rejects, the
    status is not a success or the body does not parse. *)
Definition nameResult (api : Remote) (u : jsstring) : option Pokemon :=
  r ← getPokemon api u; if ok r then body r else None.

(** The same for the membership request of [fetchPokemonByType]. *)
Definition membership (api : Remote) (u : jsstring) : option TypeData :=
  r ← getType api u; if ok r then body r else None.

(** What a per-member request settles to ([res.ok] is not looked at). *)
Definition memberResult (api : Remote) (u : jsstring) : option Pokemon :=
  r ← getPokemon api u; body r.

(** The two fetch routines under one name. *)
Inductive Lookup :=
| ByName (name : jsstring)
| ByType (type : jsstring).

Definition perform (toLowerCase : jsstring -> jsstring) (api : Remote)
    (c : Lookup) : Async () :=
  match c with
  | ByName name => fetchPokemonByName toLowerCase api name
  | ByType type => fetchPokemonByType toLowerCase api type
  end.


(** Events that leave the result list and the search term alone. *)
Definition keepsResults (e : Event) : Prop :=
  match e with
  | SetSearchTerm _ | SetPokemonList _ => False
  | _ => True
  end.

(** Events that leave the loading flag alone. *)
Definition keepsLoading (e : Event) : Prop :=
  match e with
  | SetIsLoading _ => False
  | _ => True
  end.

(** The updates a routine makes when it settles, before the [finally]. *)
Definition isResultUpdate (e : Event) : Prop :=
  match e with
  | SetPokemonList _ | SetError _ => True
  | _ => False
  end.


(** ** The rendered page *)

(** [pokemon.sprites.other['official-artwork'].front_default ||
     pokemon.sprites.front_default] *)
Definition artworkSrc (p : Pokemon) : jsstring :=
  or_else (artwork_front_default (other_official_artwork (sprites p)))
          (front_default (sprites p)).

(** One card of the results grid: what the JSX of [pokemonList.map] puts
    on it.  The texts made from numbers ([#id], height and weight over
    ten) are left out. *)
Record Card := {
  card_key : Z;
  card_color : PropValue;
  card_title : jsstring;
  card_chips : list jsstring;
  card_src : jsstring;
  card_alt : jsstring;
  card_abilities : jsstring
}.

(** The body of the [pokemonList.map] callback; [None] when it throws,
    which it does on [pokemon.types[0].type] for a creature without types. *)
Definition renderCard (p : Pokemon) : option Card :=
  color ← typeColor p;
  Some {| card_key := id p;
          card_color := color;
          card_title := pname p;
          card_chips := (fun t => name (type t)) <$> types p;
          card_src := artworkSrc p;
          card_alt := pname p;
          card_abilities := abilitiesLine p |}.

(** One type button: [key] and label are the type, the class carries the
    colour, [onClick] is [fetchPokemonByType(type)]. *)
Record TypeButton := {
  button_type : jsstring;
  button_color : jsstring
}.

(** [Object.entries(typeColors).map(([type, color]) => <button ...>)] *)
Definition typeButtons : list TypeButton :=
  (fun e => {| button_type := e.1; button_color := e.2 |})
    <$> typeColors_entries.

(** What [PokemonPage] returns for a state, as far as it depends on the
    state. *)
Record View := {
  inputValue : jsstring;
  submitDisabled : bool;
  submitLabel : jsstring;
  filterButtons : list TypeButton;
  loadingShown : bool;
  errorShown : option jsstring;
  cards : list Card
}.

(** [{error && (<div> <p>{error}</p> </div>)}]: nothing for [null] and for
    the empty string. *)
Definition errorBanner (e : option jsstring) : option jsstring :=
  match e with
  | Some msg => if truthy msg then Some msg else None
  | None => None
  end.

(** The render of [PokemonPage]; [None] when a card throws. *)
Definition render (st : State) : option View :=
  cs ← mapM renderCard (pokemonList st);
  Some {| inputValue := searchTerm st;
          submitDisabled := isLoading st;
          submitLabel := if isLoading st then lit "Searching..." else lit "Search";
          filterButtons := typeButtons;
          loadingShown := isLoading st;
          errorShown := errorBanner (error st);
          cards := cs |}.

(** A server that answers as [api] does, its creature responses carrying
    the status [f] makes of theirs. *)
Definition withMemberStatus (f : N -> N) (api : Remote) : Remote :=
  {| getPokemon := fun u =>
       (fun r => MkResponse (f (status r)) (body r)) <$> getPokemon api u;
     getType := getType api |}.

(** The page while a fetch is in flight, made from the page [v] before it:
    spinner on, submit button disabled and relabelled, no error banner. *)
Definition loadingView (v : View) : View :=
  {| inputValue := inputValue v;
     submitDisabled := true;
     submitLabel := lit "Searching...";
     filterButtons := filterButtons v;
     loadingShown := true;
     errorShown := None;
     cards := cards v |}.

(** ** Two lookups in flight at once

    Nothing in [page.tsx] cancels or orders lookups: a second one may start
    while the first is waiting.  The first three events of either routine
    (the two entry updates and the first request) run before its first
    [await]; what follows runs when its responses arrive.  Two schedules of
    the traces [tA] of a lookup A, started first, and [tB] of a lookup B,
    started while A waits for its first response: *)

(** A's responses arrive before B's: A settles, then B does. *)
Definition settlesFirst (tA tB : list Event) : list Event :=
  take 3 tA ++ take 3 tB ++ drop 3 tA ++ drop 3 tB.

(** B's responses arrive before A's: B settles, then A does. *)
Definition settlesLast (tA tB : list Event) : list Event :=
  take 3 tA ++ tB ++ drop 3 tA.

(** In general: the trace [t] of a lookup with the events [mid] of
    whatever else runs between its start and its settlement (other
    lookups, in part or whole, and typing).  Requests leave the state
    alone, so it makes no difference to the state where among the later
    requests of [t] those events fall. *)
Definition duringWhich (t mid : list Event) : list Event :=
  take 3 t ++ mid ++ drop 3 t.

(** Events that leave the error alone. *)
Definition keepsError (e : Event) : Prop :=
  match e with
  | SetError _ => False
  | _ => True
  end.

(** ** Sample data *)

Module Sample.

Definition slot (s : string) : TypeSlot := {| type := {| name := lit s |} |}.
Definition skill (s : string) : AbilitySlot := {| ability := {| name := lit s |} |}.

Definition artwork (file : string) : Sprites :=
  {| other_official_artwork :=
       {| artwork_front_default := lit "official-artwork/" ++ lit file |};
     front_default := lit file |}.

(** [GET /pokemon/charizard], the fields [page.tsx] reads. *)
Definition charizard : Pokemon :=
  {| id := 6; pname := lit "charizard";
     types := [slot "fire"; slot "flying"];
     height := 17; weight := 905;
     abilities := [skill "blaze"; skill "solar-power"];
     sprites := artwork "6.png" |}.

(** [GET /pokemon/muk-alola]: one of its abilities has two hyphens. *)
Definition mukAlola : Pokemon :=
  {| id := 10113; pname := lit "muk-alola";
     types := [slot "poison"; slot "dark"];
     height := 10; weight := 520;
     abilities := [skill "poison-touch"; skill "gluttony";
                   skill "power-of-alchemy"];
     sprites := artwork "10113.png" |}.


(** A creature record named after the URL it was served at. *)
Definition served (u : jsstring) : Pokemon :=
  {| id := Z.of_nat (length u); pname := u; types := [slot "fire"];
     height := 1; weight := 1; abilities := []; sprites := artwork "0.png" |}.

Definition notFound {A} : option (Response A) := Some (MkResponse 404%N None).
Definition found {A} (x : A) : option (Response A) :=
  Some (MkResponse 200%N (Some x)).

Definition member (u : jsstring) : Member := {| pokemon_ref := {| url := u |} |}.

(** The creature endpoint answers by name and by number alike. *)
Definition pokedex : Remote :=
  {| getPokemon := fun u =>
       if bool_decide (u = lit "https://pokeapi.co/api/v2/pokemon/charizard")
          || bool_decide (u = lit "https://pokeapi.co/api/v2/pokemon/6")
       then found charizard
       else notFound;
     getType := fun _ => notFound |}.


(** A type of two members; the request for the second one rejects. *)
Definition twoMembers : TypeData :=
  {| pokemon := [member (lit "https://pokeapi.co/api/v2/pokemon/6/");
                 member (lit "https://pokeapi.co/api/v2/pokemon/5/")] |}.

Definition oneDown : Remote :=
  {| getPokemon := fun u =>
       if bool_decide (u = lit "https://pokeapi.co/api/v2/pokemon/6/")
       then found charizard
       else None;
     getType := fun _ => found twoMembers |}.

(** A type of 35 members, every request answered. *)
Definition manyMembers : TypeData :=
  {| pokemon := (fun i => member (pokemonEndpoint ++ [N.of_nat i]))
                  <$> seq 0 35 |}.

Definition crowded : Remote :=
  {| getPokemon := fun u => found (served u);
     getType := fun _ => found manyMembers |}.

(** One type, [fire], with one member; no creature answers to a name. *)
Definition fireOnly : Remote :=
  {| getPokemon := fun u =>
       if bool_decide (u = lit "https://pokeapi.co/api/v2/pokemon/6/")
       then found charizard
       else notFound;
     getType := fun u =>
       if bool_decide (u = lit "https://pokeapi.co/api/v2/type/fire")
       then found {| pokemon :=
                       [member (lit "https://pokeapi.co/api/v2/pokemon/6/")] |}
       else notFound |}.

(** The state after the user has typed [s] into the search box. *)
Definition typed (s : string) : State :=
  apply initialState (SetSearchTerm (lit s)).

End Sample.

Import Sample.

(** ** Shape of the traces *)

(** Traces and outcomes of the combinators. *)

Lemma trace_bind {A B} (m : Async A) (f : A -> Async B) :
  trace (m ≫= f) =
    trace m ++ match outcome m with Some x => trace (f x) | None => [] end.
Proof.
  unfold mbind, Async_bind. destruct (outcome m); simpl; [reflexivity|].
  symmetry. apply app_nil_r.
Qed.

Lemma outcome_bind {A B} (m : Async A) (f : A -> Async B) :
  outcome (m ≫= f) =
    match outcome m with Some x => outcome (f x) | None => None end.
Proof. unfold mbind, Async_bind. destruct (outcome m); reflexivity. Qed.

Lemma trace_try_catch_finally (b h f : Async ()) :
  trace (try_catch_finally b h f) =
    trace b ++ match outcome b with Some _ => [] | None => trace h end
            ++ trace f.
Proof.
  unfold try_catch_finally. destruct (outcome b); simpl.
  - reflexivity.
  - rewrite <- app_assoc. reflexivity.
Qed.

Section Traces.

Variable toLowerCase : jsstring -> jsstring.
Variable api : Remote.

Lemma fetchMember_outcome u :
  outcome (fetchMember api u) = memberResult api u.
Proof.
  unfold fetchMember, memberResult, fetchPokemon, json, mbind, Async_bind.
  simpl. destruct (getPokemon api u) as [r|]; reflexivity.
Qed.

Lemma fetchMember_trace u : trace (fetchMember api u) = [Fetch u].
Proof.
  unfold fetchMember, fetchPokemon, json, mbind, Async_bind.
  simpl. destruct (getPokemon api u) as [r|]; reflexivity.
Qed.

Lemma promise_all_members_trace (us : list jsstring) :
  trace (promise_all (fetchMember api <$> us)) = Fetch <$> us.
Proof.
  unfold promise_all. simpl.
  induction us as [|u us IH]; [reflexivity|].
  simpl. rewrite fetchMember_trace. simpl. f_equal. exact IH.
Qed.

Lemma promise_all_members_outcome (us : list jsstring) :
  outcome (promise_all (fetchMember api <$> us)) = mapM (memberResult api) us.
Proof.
  unfold promise_all. cbn [outcome].
  induction us as [|u us IH]; [reflexivity|].
  rewrite fmap_cons. cbn [mapM].
  rewrite IH, fetchMember_outcome. reflexivity.
Qed.

Lemma fetchPokemonByName_trace name :
  trace (fetchPokemonByName toLowerCase api name) =
    [SetIsLoading true; SetError None;
     Fetch (pokemonEndpoint ++ toLowerCase name)] ++
    match nameResult api (pokemonEndpoint ++ toLowerCase name) with
    | Some data => [SetPokemonList [data]]
    | None => [SetError (Some notFoundMessage); SetPokemonList []]
    end ++ [SetIsLoading false].
Proof.
  unfold fetchPokemonByName, nameResult.
  generalize (pokemonEndpoint ++ toLowerCase name). intros u.
  rewrite trace_try_catch_finally, !trace_bind, !outcome_bind.
  unfold fetchPokemon, json, throw. cbn [trace outcome setIsLoading setError emit].
  destruct (getPokemon api u) as [r|]; cbn [mbind option_bind]; [|reflexivity].
  destruct (ok r); cbn [negb trace outcome mret Async_ret]; [|reflexivity].
  destruct (body r); reflexivity.
Qed.

Lemma fetchPokemonByType_trace type :
  trace (fetchPokemonByType toLowerCase api type) =
    [SetIsLoading true; SetError None;
     Fetch (typeEndpoint ++ toLowerCase type)] ++
    match membership api (typeEndpoint ++ toLowerCase type) with
    | Some data =>
        (Fetch <$> pokemonUrls data) ++
        match mapM (memberResult api) (pokemonUrls data) with
        | Some pokemonData => [SetPokemonList pokemonData]
        | None => [SetError (Some typeFailedMessage); SetPokemonList []]
        end
    | None => [SetError (Some typeFailedMessage); SetPokemonList []]
    end ++ [SetIsLoading false].
Proof.
  unfold fetchPokemonByType, membership.
  generalize (typeEndpoint ++ toLowerCase type). intros u.
  rewrite trace_try_catch_finally, !trace_bind, !outcome_bind.
  unfold fetchType, json, throw. cbn [trace outcome setIsLoading setError emit].
  destruct (getType api u) as [r|]; cbn [mbind option_bind]; [|reflexivity].
  destruct (ok r); cbn [negb trace outcome mret Async_ret]; [|reflexivity].
  destruct (body r) as [data|]; [|reflexivity].
  cbn [Async_bind trace outcome app mret Async_ret].
  rewrite ?trace_bind, ?outcome_bind.
  cbn [Async_bind trace outcome app mret Async_ret].
  rewrite ?trace_bind, ?outcome_bind.
  rewrite promise_all_members_outcome, promise_all_members_trace.
  destruct (mapM (memberResult api) (pokemonUrls data));
    cbn [trace outcome setPokemonList emit app];
    rewrite <- ?app_assoc; reflexivity.
Qed.

End Traces.

(** ** Strings *)

Lemma trimStart_blank (s : jsstring) :
  Forall (fun c => isWhiteSpace c = true) s -> trimStart s = [].
Proof.
  induction 1 as [|c s Hc _ IH]; simpl; [reflexivity|].
  rewrite Hc. exact IH.
Qed.

Lemma trim_blank (s : jsstring) :
  Forall (fun c => isWhiteSpace c = true) s -> trim s = [].
Proof. intros H. unfold trim. rewrite (trimStart_blank s H). reflexivity. Qed.

(** Replacing the first hyphen of [s]. *)
Lemma replace_hyphen_cons (c : N) (s : jsstring) :
  replace (lit "-") (lit " ") (c :: s) =
    if (hyphen =? c)%N then space :: s
    else c :: replace (lit "-") (lit " ") s.
Proof.
  change (lit "-") with [hyphen]. change (lit " ") with [space].
  cbn [replace startsWith length].
  destruct (hyphen =? c)%N; reflexivity.
Qed.

Lemma replace_hyphen_nil : replace (lit "-") (lit " ") [] = [].
Proof. reflexivity. Qed.

Lemma replaceEvery_no_hyphen (s : jsstring) :
  hyphen ∉ s -> replaceEvery hyphen space s = s.
Proof.
  induction s as [|c s IH]; intros Hs; [reflexivity|].
  apply not_elem_of_cons in Hs as [Hc Hs].
  unfold replaceEvery in *. cbn [map].
  destruct (N.eqb_spec c hyphen) as [->|_]; [contradiction|].
  f_equal. apply IH, Hs.
Qed.

(** On a name with at most one hyphen, replacing the first hyphen is
    replacing every hyphen. *)
Lemma replace_one_hyphen (s : jsstring) :
  (count_occ N.eq_dec s hyphen <= 1)%nat ->
  replace (lit "-") (lit " ") s = replaceEvery hyphen space s.
Proof.
  induction s as [|c s IH]; intros Hs; [reflexivity|].
  rewrite replace_hyphen_cons. unfold replaceEvery in *.
  cbn [map]. cbn [count_occ] in Hs.
  destruct (N.eq_dec c hyphen) as [->|Hne].
  - rewrite N.eqb_refl. f_equal. symmetry.
    apply (replaceEvery_no_hyphen s).
    rewrite list_elem_of_In. rewrite (count_occ_not_In N.eq_dec). lia.
  - destruct (N.eqb_spec hyphen c) as [E|_]; [congruence|].
    destruct (N.eqb_spec c hyphen) as [E|_]; [congruence|].
    f_equal. apply IH, Hs.
Qed.

(** So the abilities line is the specified one for creatures none of whose
    ability names has two hyphens. *)
Lemma abilitiesLine_one_hyphen (p : Pokemon) :
  Forall (fun a => (count_occ N.eq_dec (name (ability a)) hyphen <= 1)%nat)
         (abilities p) ->
  abilitiesLine p = abilitiesLine_spec p.
Proof.
  unfold abilitiesLine, abilitiesLine_spec. intros H. f_equal.
  induction H as [|a l Ha _ IH]; [reflexivity|].
  cbn [map]. rewrite (replace_one_hyphen _ Ha). f_equal. exact IH.
Qed.

(** ** The colour table *)


Lemma typeColors_truthy (k c : jsstring) :
  typeColors_own !! k = Some c -> truthy c = true.
Proof.
  intros H. apply elem_of_list_to_map_2 in H.
  assert (A : Forall (fun kc => truthy kc.2 = true) typeColors_entries)
    by (repeat constructor).
  rewrite Forall_forall in A. exact (A (k, c) H).
Qed.

Lemma colorOf_known (k c : jsstring) :
  typeColors_own !! k = Some c -> colorOf k = OwnString c.
Proof.
  intros H. unfold colorOf, typeColors. rewrite H. unfold or_else.
  rewrite (typeColors_truthy k c H). reflexivity.
Qed.

Lemma colorOf_inherited (k : jsstring) :
  typeColors_own !! k = None -> k ∈ objectPrototype ->
  colorOf k = Inherited k.
Proof.
  intros H Hk. unfold colorOf, typeColors. rewrite H.
  rewrite (bool_decide_eq_true_2 _ Hk). reflexivity.
Qed.

Lemma colorOf_unknown (k : jsstring) :
  typeColors_own !! k = None -> k ∉ objectPrototype ->
  colorOf k = OwnString fallbackColor.
Proof.
  intros H Hk. unfold colorOf, typeColors. rewrite H.
  rewrite (bool_decide_eq_false_2 _ Hk). reflexivity.
Qed.

(** The colour of a key, in terms of the table's own entries and the
    names [Object.prototype] has. *)
Lemma colorOf_cases (k : jsstring) :
  colorOf k =
    match typeColors_own !! k with
    | Some c => OwnString c
    | None => if bool_decide (k ∈ objectPrototype) then Inherited k
              else OwnString (lit "bg-gray-500")
    end.
Proof.
  destruct (typeColors_own !! k) as [c|] eqn:E.
  - apply colorOf_known, E.
  - destruct (decide (k ∈ objectPrototype)) as [Hk|Hk].
    + rewrite (bool_decide_eq_true_2 _ Hk). apply colorOf_inherited; assumption.
    + rewrite (bool_decide_eq_false_2 _ Hk). apply colorOf_unknown; assumption.
Qed.

(** ** States along and after a trace *)

Lemma run_app (st : State) (a b : list Event) :
  run st (a ++ b) = run (run st a) b.
Proof. apply foldl_app. Qed.

Lemma run_fetches (st : State) (us : list jsstring) :
  run st (Fetch <$> us) = st.
Proof. induction us as [|u us IH]; [reflexivity|exact IH]. Qed.

Lemma requests_app (a b : list Event) :
  requests (a ++ b) = requests a ++ requests b.
Proof. apply omap_app. Qed.

Lemma requests_fetches (us : list jsstring) : requests (Fetch <$> us) = us.
Proof.
  induction us as [|u us IH]; [reflexivity|].
  unfold requests in *. rewrite fmap_cons. cbn [omap list_omap].
  f_equal. exact IH.
Qed.

Section Settled.

Variable toLowerCase : jsstring -> jsstring.
Variable api : Remote.

(** The state [fetchPokemonByName] leaves. *)
Lemma settled_fetchPokemonByName (st : State) (name : jsstring) :
  settled st (fetchPokemonByName toLowerCase api name) =
    match nameResult api (pokemonEndpoint ++ toLowerCase name) with
    | Some data =>
        {| searchTerm := searchTerm st; pokemonList := [data];
           isLoading := false; error := None |}
    | None =>
        {| searchTerm := searchTerm st; pokemonList := [];
           isLoading := false; error := Some notFoundMessage |}
    end.
Proof.
  unfold settled. rewrite fetchPokemonByName_trace.
  destruct (nameResult api _); reflexivity.
Qed.

(** The state [fetchPokemonByType] leaves. *)
Lemma settled_fetchPokemonByType (st : State) (type : jsstring) :
  settled st (fetchPokemonByType toLowerCase api type) =
    match membership api (typeEndpoint ++ toLowerCase type)
            ≫= fun data => mapM (memberResult api) (pokemonUrls data) with
    | Some pokemonData =>
        {| searchTerm := searchTerm st; pokemonList := pokemonData;
           isLoading := false; error := None |}
    | None =>
        {| searchTerm := searchTerm st; pokemonList := [];
           isLoading := false; error := Some typeFailedMessage |}
    end.
Proof.
  unfold settled. rewrite fetchPokemonByType_trace.
  destruct (membership api _) as [data|]; [|reflexivity].
  cbn [mbind option_bind].
  rewrite !run_app, run_fetches.
  destruct (mapM (memberResult api) (pokemonUrls data)); reflexivity.
Qed.

Lemma membership_Some (u : jsstring) (r : Response TypeData) (data : TypeData) :
  getType api u = Some r -> ok r = true -> body r = Some data ->
  membership api u = Some data.
Proof.
  intros Hr Hok Hb. unfold membership. rewrite Hr. cbn [mbind option_bind].
  rewrite Hok. exact Hb.
Qed.

Lemma length_pokemonUrls (data : TypeData) :
  length (pokemonUrls data) = min 20 (length (pokemon data)).
Proof. unfold pokemonUrls. rewrite length_fmap. apply length_take. Qed.

End Settled.

Lemma run_keepsResults (st : State) (tr : list Event) :
  Forall keepsResults tr ->
  pokemonList (run st tr) = pokemonList st ∧
  searchTerm (run st tr) = searchTerm st.
Proof.
  intros H. revert st.
  induction H as [|e tr He _ IH]; intros st; [split; reflexivity|].
  change (run st (e :: tr)) with (run (apply st e) tr).
  destruct (IH (apply st e)) as [-> ->].
  destruct e; simpl in He; try contradiction; split; reflexivity.
Qed.

Lemma run_keepsLoading (st : State) (tr : list Event) :
  Forall keepsLoading tr -> isLoading (run st tr) = isLoading st.
Proof.
  intros H. revert st.
  induction H as [|e tr He _ IH]; intros st; [reflexivity|].
  change (run st (e :: tr)) with (run (apply st e) tr).
  rewrite IH. destruct e; simpl in He; try contradiction; reflexivity.
Qed.

Lemma Forall_fetches (P : Event -> Prop) (us : list jsstring) :
  (forall u, P (Fetch u)) -> Forall P (Fetch <$> us).
Proof. intros H. apply Forall_fmap, Forall_true. intros u. apply H. Qed.

(** Every run of either routine has the same shape: the two entry updates,
    then nothing but requests (at least one), then the updates made at
    settlement, then the [finally] update. *)
Lemma perform_trace_shape toLowerCase api (c : Lookup) :
  exists (reqs : list jsstring) (upd : list Event),
    trace (perform toLowerCase api c) =
      [SetIsLoading true; SetError None] ++ (Fetch <$> reqs) ++ upd
        ++ [SetIsLoading false] ∧
    reqs ≠ [] ∧
    Forall isResultUpdate upd.
Proof.
  destruct c as [name|type]; cbn [perform].
  - rewrite fetchPokemonByName_trace.
    generalize (pokemonEndpoint ++ toLowerCase name). intros u.
    exists [u].
    destruct (nameResult api u) as [data|].
    + exists [SetPokemonList [data]].
      split; [reflexivity|split; [discriminate|repeat constructor]].
    + exists [SetError (Some notFoundMessage); SetPokemonList []].
      split; [reflexivity|split; [discriminate|repeat constructor]].
  - rewrite fetchPokemonByType_trace.
    generalize (typeEndpoint ++ toLowerCase type). intros u.
    destruct (membership api u) as [data|].
    + exists (u :: pokemonUrls data).
      destruct (mapM (memberResult api) (pokemonUrls data)) as [l|].
      * exists [SetPokemonList l].
        split; [rewrite fmap_cons, <- !app_assoc; reflexivity
               |split; [discriminate|repeat constructor]].
      * exists [SetError (Some typeFailedMessage); SetPokemonList []].
        split; [rewrite fmap_cons, <- !app_assoc; reflexivity
               |split; [discriminate|repeat constructor]].
    + exists [u], [SetError (Some typeFailedMessage); SetPokemonList []].
      split; [reflexivity|split; [discriminate|repeat constructor]].
Qed.

(** The updates a routine makes when it settles with result list [l] and
    error [e], before the [finally]. *)
Lemma perform_trace_settlement toLowerCase api (c : Lookup) :
  exists (u : jsstring) (more : list jsstring) (l : list Pokemon)
         (e : option jsstring),
    trace (perform toLowerCase api c) =
      [SetIsLoading true; SetError None; Fetch u] ++ (Fetch <$> more) ++
      match e with
      | Some m => [SetError (Some m); SetPokemonList l]
      | None => [SetPokemonList l]
      end ++ [SetIsLoading false] ∧
    forall st, settled st (perform toLowerCase api c) =
      {| searchTerm := searchTerm st; pokemonList := l;
         isLoading := false; error := e |}.
Proof.
  destruct c as [name|type]; cbn [perform].
  - exists (pokemonEndpoint ++ toLowerCase name), [].
    destruct (nameResult api (pokemonEndpoint ++ toLowerCase name))
      as [d|] eqn:E.
    + exists [d], None. split.
      * rewrite fetchPokemonByName_trace, E. reflexivity.
      * intros st. rewrite settled_fetchPokemonByName, E. reflexivity.
    + exists [], (Some notFoundMessage). split.
      * rewrite fetchPokemonByName_trace, E. reflexivity.
      * intros st. rewrite settled_fetchPokemonByName, E. reflexivity.
  - exists (typeEndpoint ++ toLowerCase type).
    destruct (membership api (typeEndpoint ++ toLowerCase type))
      as [data|] eqn:E.
    + exists (pokemonUrls data).
      destruct (mapM (memberResult api) (pokemonUrls data)) as [l|] eqn:El.
      * exists l, None. split.
        -- rewrite fetchPokemonByType_trace, E, El, <- !app_assoc. reflexivity.
        -- intros st. rewrite settled_fetchPokemonByType, E.
           cbn [mbind option_bind]. rewrite El. reflexivity.
      * exists [], (Some typeFailedMessage). split.
        -- rewrite fetchPokemonByType_trace, E, El, <- !app_assoc. reflexivity.
        -- intros st. rewrite settled_fetchPokemonByType, E.
           cbn [mbind option_bind]. rewrite El. reflexivity.
    + exists [], [], (Some typeFailedMessage). split.
      * rewrite fetchPokemonByType_trace, E. reflexivity.
      * intros st. rewrite settled_fetchPokemonByType, E. reflexivity.
Qed.

Lemma run_keepsError (st : State) (tr : list Event) :
  Forall keepsError tr -> error (run st tr) = error st.
Proof.
  intros H. revert st.
  induction H as [|e tr He _ IH]; intros st; [reflexivity|].
  change (run st (e :: tr)) with (run (run st [e]) tr).
  rewrite IH. destruct e; simpl in He; try contradiction; reflexivity.
Qed.

Lemma duringWhich_nil (t : list Event) : duringWhich t [] = t.
Proof. unfold duringWhich. apply take_drop. Qed.

(** Requests may be moved across any events without changing the state. *)
Lemma run_fetches_anywhere (st : State) (us : list jsstring)
    (a b : list Event) :
  run st (a ++ (Fetch <$> us) ++ b) = run st (a ++ b).
Proof. rewrite !run_app, run_fetches. reflexivity. Qed.

(** What a lookup leaves when it settles, whatever fell in between: its
    own result list, the flag down, its own message when it failed and
    otherwise the error the events in between left. *)
Lemma run_duringWhich toLowerCase api (st : State) (c : Lookup)
    (mid : list Event) :
  run st (duringWhich (trace (perform toLowerCase api c)) mid) =
    {| searchTerm :=
         searchTerm (run (run st [SetIsLoading true; SetError None]) mid);
       pokemonList := pokemonList (settled st (perform toLowerCase api c));
       isLoading := false;
       error :=
         match error (settled st (perform toLowerCase api c)) with
         | Some m => Some m
         | None => error (run (run st [SetIsLoading true; SetError None]) mid)
         end |}.
Proof.
  destruct (perform_trace_settlement toLowerCase api c)
    as (u & more & l & e & -> & H).
  rewrite H. cbn [pokemonList error].
  unfold duringWhich. cbn [app take drop]. rewrite take_0, drop_0.
  cbn [app].
  change (run st (SetIsLoading true :: SetError None :: Fetch u :: ?t))
    with (run (run st [SetIsLoading true; SetError None]) t).
  rewrite !run_app, run_fetches.
  destruct e; reflexivity.
Qed.

(** ** The claims *)

(** C1 (the code departs from it).  The abilities line is specified as the
    ability names with every hyphen turned into a space, joined by [", "].
    [replace('-', ' ')] turns only the first hyphen of each name: for the
    abilities of [muk-alola] the page shows [power of-alchemy] where the
    specified line has [power of alchemy]. *)
Theorem abilitiesLine_keeps_second_hyphen :
  abilitiesLine mukAlola = lit "poison touch, gluttony, power of-alchemy" ∧
  abilitiesLine_spec mukAlola = lit "poison touch, gluttony, power of alchemy" ∧
  bool_decide (abilitiesLine mukAlola = abilitiesLine_spec mukAlola) = false.
Proof. repeat split; vm_compute; reflexivity. Qed.

(** A search whose input does not trim to the empty string calls
    [fetchPokemonByName] on the input as typed. *)
Lemma handleSearch_nonblank toLowerCase api (st : State) :
  truthy (trim (searchTerm st)) = true ->
  handleSearch toLowerCase api st =
    (preventDefault;;
     spawn (fetchPokemonByName toLowerCase api (searchTerm st))).
Proof. intros H. unfold handleSearch. rewrite H. reflexivity. Qed.

(** C2 (the code departs from it).  The name handed to the lookup should be
    the trimmed input.  With [" pikachu"] in the search box the input trims
    to ["pikachu"], yet [fetchPokemonByName] is called on [" pikachu"] and
    the one request made is for [.../pokemon/ pikachu]. *)
Theorem handleSearch_passes_untrimmed (api : Remote) :
  trim (searchTerm (typed " pikachu")) = lit "pikachu" ∧
  handleSearch asciiToLowerCase api (typed " pikachu") =
    (preventDefault;;
     spawn (fetchPokemonByName asciiToLowerCase api (lit " pikachu"))) ∧
  requests (trace (handleSearch asciiToLowerCase api (typed " pikachu"))) =
    [lit "https://pokeapi.co/api/v2/pokemon/ pikachu"].
Proof.
  split; [vm_compute; reflexivity|].
  assert (E : handleSearch asciiToLowerCase api (typed " pikachu") =
    (preventDefault;;
     spawn (fetchPokemonByName asciiToLowerCase api (lit " pikachu")))).
  { apply (handleSearch_nonblank asciiToLowerCase api (typed " pikachu")).
    vm_compute. reflexivity. }
  split; [exact E|].
  rewrite E, trace_bind. cbn [outcome preventDefault emit trace spawn].
  rewrite fetchPokemonByName_trace, !requests_app.
  change (asciiToLowerCase (lit " pikachu")) with (lit " pikachu").
  replace (pokemonEndpoint ++ lit " pikachu")
    with (lit "https://pokeapi.co/api/v2/pokemon/ pikachu")
    by (vm_compute; reflexivity).
  destruct (nameResult api _); reflexivity.
Qed.





(** C4.  When the membership request succeeds and one of the per-member
    requests rejects, the type lookup fails as a whole: the error is the
    type-browse message, the result set is empty, and no update along the
    way ever stores a partial list. *)
Theorem member_rejection_fails_whole_batch toLowerCase api (st : State)
    (type : jsstring) (r : Response TypeData) (data : TypeData) (u : jsstring) :
  getType api (typeEndpoint ++ toLowerCase type) = Some r ->
  ok r = true ->
  body r = Some data ->
  u ∈ pokemonUrls data ->
  outcome (fetchMember api u) = None ->
  error (settled st (fetchPokemonByType toLowerCase api type))
    = Some typeFailedMessage ∧
  pokemonList (settled st (fetchPokemonByType toLowerCase api type)) = [] ∧
  (forall l, SetPokemonList l ∈ trace (fetchPokemonByType toLowerCase api type)
             -> l = []).
Proof.
  intros Hr Hok Hb Hu Hrej.
  pose proof (membership_Some api _ r data Hr Hok Hb) as Hm.
  rewrite fetchMember_outcome in Hrej.
  assert (Hall : mapM (memberResult api) (pokemonUrls data) = None).
  { apply mapM_None_2, Exists_exists. exists u. split; assumption. }
  rewrite settled_fetchPokemonByType, fetchPokemonByType_trace, Hm.
  cbn [mbind option_bind]. rewrite Hall.
  split; [reflexivity|]. split; [reflexivity|].
  intros l Hl.
  rewrite !elem_of_app, list_elem_of_fmap in Hl.
  destruct Hl as [Hl|[[[v [Hv _]]|Hl]|Hl]].
  - repeat (apply elem_of_cons in Hl as [Hl|Hl]; [discriminate Hl|]).
    apply elem_of_nil in Hl. contradiction.
  - discriminate Hv.
  - apply elem_of_cons in Hl as [Hl|Hl]; [discriminate Hl|].
    apply elem_of_cons in Hl as [Hl|Hl]; [congruence|].
    apply elem_of_nil in Hl. contradiction.
  - apply elem_of_cons in Hl as [Hl|Hl]; [discriminate Hl|].
    apply elem_of_nil in Hl. contradiction.
Qed.

Lemma member_rejection_fails_whole_batch_witness :
  error (settled initialState
           (fetchPokemonByType asciiToLowerCase oneDown (lit "fire")))
    = Some typeFailedMessage ∧
  pokemonList (settled initialState
           (fetchPokemonByType asciiToLowerCase oneDown (lit "fire"))) = [] ∧
  (forall l, SetPokemonList l
               ∈ trace (fetchPokemonByType asciiToLowerCase oneDown (lit "fire"))
             -> l = []).
Proof.
  apply (member_rejection_fails_whole_batch asciiToLowerCase oneDown
           initialState (lit "fire") (MkResponse 200%N (Some twoMembers))
           twoMembers (lit "https://pokeapi.co/api/v2/pokemon/5/")).
  - reflexivity.
  - reflexivity.
  - reflexivity.
  - vm_compute. apply list_elem_of_further, list_elem_of_here.
  - vm_compute. reflexivity.
Defined.

(** What the request for one member settles to, on the server's answer:
    the parsed body, whatever the status. *)
Lemma memberResult_Some api (u : jsstring) (p : Pokemon) :
  memberResult api u = Some p <->
  exists r, getPokemon api u = Some r ∧ body r = Some p.
Proof.
  unfold memberResult. destruct (getPokemon api u) as [r|];
    cbn [mbind option_bind].
  - split; [intros H; exists r; split; [reflexivity|exact H]|].
    intros (r' & Hr & Hb). injection Hr as ->. exact Hb.
  - split; [discriminate|]. intros (r' & Hr & _). discriminate Hr.
Qed.

(** C5.  A type lookup whose membership request succeeds and whose first
    20 members are each answered with a body that parses makes the
    requests for exactly those members, in list order, and leaves
    min(20, member_count) creatures, the i-th of them being the body the
    server answered for the i-th member of the list; this whatever other
    events fall between its start and its settlement. *)
Theorem type_lookup_first_twenty_in_order toLowerCase api (st : State)
    (type : jsstring) (r : Response TypeData) (data : TypeData)
    (mid : list Event) :
  getType api (typeEndpoint ++ toLowerCase type) = Some r ->
  ok r = true ->
  body r = Some data ->
  Forall (fun m => exists r' p,
            getPokemon api (url (pokemon_ref m)) = Some r' ∧ body r' = Some p)
         (take 20 (pokemon data)) ->
  length (pokemonList (run st
            (duringWhich (trace (fetchPokemonByType toLowerCase api type)) mid)))
    = min 20 (length (pokemon data)) ∧
  Forall2 (fun m p => exists r',
             getPokemon api (url (pokemon_ref m)) = Some r' ∧ body r' = Some p)
          (take (min 20 (length (pokemon data))) (pokemon data))
          (pokemonList (run st
            (duringWhich (trace (fetchPokemonByType toLowerCase api type)) mid))) ∧
  requests (trace (fetchPokemonByType toLowerCase api type)) =
    (typeEndpoint ++ toLowerCase type) ::
    ((fun m => url (pokemon_ref m)) <$> take 20 (pokemon data)) ∧
  pokemonList (settled st (fetchPokemonByType toLowerCase api type)) =
    pokemonList (run st
      (duringWhich (trace (fetchPokemonByType toLowerCase api type)) mid)) ∧
  error (settled st (fetchPokemonByType toLowerCase api type)) = None.
Proof.
  intros Hr Hok Hb Hall.
  pose proof (membership_Some api _ r data Hr Hok Hb) as Hm.
  assert (Hsome : is_Some (mapM (memberResult api) (pokemonUrls data))).
  { apply mapM_is_Some_2. unfold pokemonUrls. apply Forall_fmap.
    eapply Forall_impl; [exact Hall|].
    intros m (r' & p & Hg & Hp). exists p.
    apply memberResult_Some. exists r'. split; assumption. }
  destruct Hsome as [l Hl].
  change (fetchPokemonByType toLowerCase api type)
    with (perform toLowerCase api (ByType type)).
  rewrite (run_duringWhich toLowerCase api st (ByType type) mid).
  cbn [perform pokemonList].
  rewrite settled_fetchPokemonByType, Hm. cbn [mbind option_bind].
  rewrite Hl. cbn [pokemonList error].
  split; [|split; [|split; [|split; reflexivity]]].
  - apply length_mapM in Hl. rewrite <- Hl. apply length_pokemonUrls.
  - apply mapM_Some_1 in Hl. unfold pokemonUrls in Hl.
    apply Forall2_fmap_l in Hl.
    replace (take (min 20 (length (pokemon data))) (pokemon data))
      with (take 20 (pokemon data)).
    + eapply Forall2_impl; [exact Hl|].
      intros m p Hmp. cbn beta in Hmp. apply memberResult_Some. exact Hmp.
    + destruct (Nat.le_ge_cases 20 (length (pokemon data))) as [H|H].
      * rewrite (Nat.min_l _ _ H). reflexivity.
      * rewrite (Nat.min_r _ _ H), (take_ge _ 20 H), firstn_all. reflexivity.
  - rewrite fetchPokemonByType_trace, Hm, Hl, !requests_app, requests_fetches.
    cbn [requests omap list_omap app]. rewrite !app_nil_r. reflexivity.
Qed.

Lemma type_lookup_first_twenty_in_order_witness :
  length (pokemonList (run initialState
            (duringWhich
               (trace (fetchPokemonByType asciiToLowerCase crowded (lit "water")))
               [SetSearchTerm (lit "x")])))
    = min 20 (length (pokemon manyMembers)) ∧
  Forall2 (fun m p => exists r',
             getPokemon crowded (url (pokemon_ref m)) = Some r' ∧
             body r' = Some p)
          (take (min 20 (length (pokemon manyMembers))) (pokemon manyMembers))
          (pokemonList (run initialState
            (duringWhich
               (trace (fetchPokemonByType asciiToLowerCase crowded (lit "water")))
               [SetSearchTerm (lit "x")]))) ∧
  requests (trace (fetchPokemonByType asciiToLowerCase crowded (lit "water"))) =
    (typeEndpoint ++ asciiToLowerCase (lit "water")) ::
    ((fun m => url (pokemon_ref m)) <$> take 20 (pokemon manyMembers)) ∧
  pokemonList (settled initialState
      (fetchPokemonByType asciiToLowerCase crowded (lit "water"))) =
    pokemonList (run initialState
      (duringWhich
         (trace (fetchPokemonByType asciiToLowerCase crowded (lit "water")))
         [SetSearchTerm (lit "x")])) ∧
  error (settled initialState
      (fetchPokemonByType asciiToLowerCase crowded (lit "water"))) = None.
Proof.
  apply (type_lookup_first_twenty_in_order asciiToLowerCase crowded
           initialState (lit "water") (MkResponse 200%N (Some manyMembers))
           manyMembers [SetSearchTerm (lit "x")]).
  - reflexivity.
  - reflexivity.
  - reflexivity.
  - apply Forall_forall. intros m _.
    exists (MkResponse 200%N (Some (served (url (pokemon_ref m))))),
           (served (url (pokemon_ref m))).
    split; reflexivity.
Defined.

(** The scenario of the specification: 35 members, 20 creatures shown. *)
Example water_of_35_shows_20 :
  length (pokemon manyMembers) = 35 ∧
  length (pokemonList (settled initialState
            (fetchPokemonByType asciiToLowerCase crowded (lit "water")))) = 20.
Proof. split; vm_compute; reflexivity. Qed.

(** C6.  Either routine starts by setting [isLoading] to true and clearing
    the error, ends by setting [isLoading] back to false whatever happened
    in between, and does not touch the flag in between. *)
Theorem loading_flag_set_at_entry_cleared_at_exit toLowerCase api
    (st : State) (c : Lookup) :
  exists mid : list Event,
    trace (perform toLowerCase api c) =
      [SetIsLoading true; SetError None] ++ mid ++ [SetIsLoading false] ∧
    Forall keepsLoading mid ∧
    isLoading (run st [SetIsLoading true; SetError None]) = true ∧
    error (run st [SetIsLoading true; SetError None]) = None ∧
    isLoading (run st ([SetIsLoading true; SetError None] ++ mid)) = true ∧
    isLoading (settled st (perform toLowerCase api c)) = false.
Proof.
  destruct (perform_trace_shape toLowerCase api c)
    as (reqs & upd & Htr & _ & Hupd).
  exists ((Fetch <$> reqs) ++ upd).
  assert (Hmid : Forall keepsLoading ((Fetch <$> reqs) ++ upd)).
  { apply Forall_app. split.
    - apply Forall_fetches. intros u. exact I.
    - eapply Forall_impl; [exact Hupd|].
      intros e He. destruct e; simpl in He; try contradiction; exact I. }
  split; [rewrite Htr, <- !app_assoc; reflexivity|].
  split; [exact Hmid|].
  split; [reflexivity|]. split; [reflexivity|].
  split.
  - rewrite run_app, (run_keepsLoading _ _ Hmid). reflexivity.
  - unfold settled. rewrite Htr, !app_assoc, run_app. reflexivity.
Qed.

(** C7, counterexample.  The creature endpoint also answers to a number:
    the lookup of ["6"] succeeds and leaves the creature named
    ["charizard"], which is not ["6"] in any letter case. *)
Lemma lookup_by_number_leaves_another_name :
  pokemonList (settled initialState
     (fetchPokemonByName asciiToLowerCase pokedex (lit "6"))) = [charizard] ∧
  error (settled initialState
     (fetchPokemonByName asciiToLowerCase pokedex (lit "6"))) = None ∧
  asciiToLowerCase (pname charizard) = lit "charizard" ∧
  asciiToLowerCase (lit "6") = lit "6" ∧
  bool_decide (asciiToLowerCase (pname charizard) = asciiToLowerCase (lit "6"))
    = false.
Proof. repeat split; vm_compute; reflexivity. Qed.

(** C7, as amended.  A name lookup whose request rejects, whose status is
    outside 200-299 (whichever it is) or whose body does not parse leaves
    the not-found message and an empty result set; otherwise it replaces
    the result set by exactly the one creature parsed from the body, under
    whatever name the server gave it.  This holds whatever other events
    fall between the lookup's start and its settlement. *)
Theorem name_lookup_outcome toLowerCase api (st : State) (name : jsstring)
    (mid : list Event) :
  match getPokemon api (pokemonEndpoint ++ toLowerCase name) with
  | Some r =>
      if ((200 <=? status r) && (status r <=? 299))%N then
        match body r with
        | Some data =>
            pokemonList (run st (duringWhich
                (trace (fetchPokemonByName toLowerCase api name)) mid))
              = [data]
        | None =>
            error (run st (duringWhich
                (trace (fetchPokemonByName toLowerCase api name)) mid))
              = Some notFoundMessage ∧
            pokemonList (run st (duringWhich
                (trace (fetchPokemonByName toLowerCase api name)) mid))
              = []
        end
      else
        error (run st (duringWhich
            (trace (fetchPokemonByName toLowerCase api name)) mid))
          = Some notFoundMessage ∧
        pokemonList (run st (duringWhich
            (trace (fetchPokemonByName toLowerCase api name)) mid)) = []
  | None =>
      error (run st (duringWhich
          (trace (fetchPokemonByName toLowerCase api name)) mid))
        = Some notFoundMessage ∧
      pokemonList (run st (duringWhich
          (trace (fetchPokemonByName toLowerCase api name)) mid)) = []
  end.
Proof.
  change (fetchPokemonByName toLowerCase api name)
    with (perform toLowerCase api (ByName name)).
  rewrite (run_duringWhich toLowerCase api st (ByName name) mid).
  cbn [perform pokemonList error].
  rewrite settled_fetchPokemonByName. unfold nameResult.
  generalize (pokemonEndpoint ++ toLowerCase name). intros u.
  destruct (getPokemon api u) as [r|]; cbn [mbind option_bind];
    [|split; reflexivity].
  change ((200 <=? status r) && (status r <=? 299))%N with (ok r).
  destruct (ok r); [|split; reflexivity].
  destruct (body r); [reflexivity|split; reflexivity].
Qed.

(** C8.  Submitting a search box that is empty or holds only white space
    does nothing but [preventDefault]: no request is made and the state
    after the handler is the state before it, field for field. *)
Theorem handleSearch_blank_is_noop toLowerCase api (st : State) :
  Forall (fun c => isWhiteSpace c = true) (searchTerm st) ->
  trace (handleSearch toLowerCase api st) = [PreventDefault] ∧
  requests (trace (handleSearch toLowerCase api st)) = [] ∧
  settled st (handleSearch toLowerCase api st) = st.
Proof.
  intros H.
  assert (E : trace (handleSearch toLowerCase api st) = [PreventDefault]).
  { unfold handleSearch. rewrite (trim_blank _ H). reflexivity. }
  unfold settled. rewrite E. repeat split.
Qed.

Lemma handleSearch_blank_is_noop_witness :
  trace (handleSearch asciiToLowerCase pokedex (typed "   "))
    = [PreventDefault] ∧
  requests (trace (handleSearch asciiToLowerCase pokedex (typed "   "))) = [] ∧
  settled (typed "   ") (handleSearch asciiToLowerCase pokedex (typed "   "))
    = typed "   ".
Proof.
  apply (handleSearch_blank_is_noop asciiToLowerCase pokedex (typed "   ")).
  vm_compute. repeat constructor.
Defined.




(** The scenario of the specification: charizard gets the fire colour; a
    type the table does not know gets the fallback. *)
Example charizard_header_is_fire :
  typeColor charizard = Some (OwnString (lit "bg-[#F08030]")) ∧
  colorOf (lit "stellar") = OwnString (lit "bg-gray-500").
Proof. split; vm_compute; reflexivity. Qed.

(** C10.  From its start until it settles, either routine has updated only
    [isLoading] and [error]: after the two entry updates come only
    requests (at least one), and at every point up to the last request the
    result list and the search term are the ones the routine started
    with. *)
Theorem results_kept_while_loading toLowerCase api (st : State) (c : Lookup) :
  exists (reqs : list jsstring) (settlement : list Event),
    trace (perform toLowerCase api c) =
      [SetIsLoading true; SetError None] ++ (Fetch <$> reqs) ++ settlement ∧
    reqs ≠ [] ∧
    Forall (fun e => isFetch e = false) settlement ∧
    forall k : nat,
      k <= 2 + length reqs ->
      pokemonList (run st (take k (trace (perform toLowerCase api c))))
        = pokemonList st ∧
      searchTerm (run st (take k (trace (perform toLowerCase api c))))
        = searchTerm st.
Proof.
  destruct (perform_trace_shape toLowerCase api c)
    as (reqs & upd & Htr & Hreqs & Hupd).
  exists reqs, (upd ++ [SetIsLoading false]).
  split; [exact Htr|]. split; [exact Hreqs|]. split.
  - apply Forall_app. split.
    + eapply Forall_impl; [exact Hupd|].
      intros e He. destruct e; simpl in He; try contradiction; reflexivity.
    + repeat constructor.
  - intros k Hk. rewrite Htr.
    set (loading := [SetIsLoading true; SetError None] ++ (Fetch <$> reqs)).
    replace ([SetIsLoading true; SetError None] ++ (Fetch <$> reqs) ++ upd
               ++ [SetIsLoading false])
      with (loading ++ upd ++ [SetIsLoading false])
      by (unfold loading; rewrite <- !app_assoc; reflexivity).
    rewrite take_app_le
      by (unfold loading; rewrite length_app, length_fmap; simpl; lia).
    apply run_keepsResults, Forall_take.
    unfold loading. apply Forall_app. split.
    + repeat constructor.
    + apply Forall_fetches. intros u. exact I.
Qed.

(** ** Further properties of [page.tsx] *)

(** *** Strings *)

Lemma trimStart_nil (s : jsstring) :
  trimStart s = [] -> Forall (fun c => isWhiteSpace c = true) s.
Proof.
  induction s as [|c s IH]; intros H; [constructor|].
  cbn [trimStart] in H. destruct (isWhiteSpace c) eqn:Hc; [|discriminate H].
  constructor; [exact Hc|exact (IH H)].
Qed.

Lemma trimStart_head (s r : jsstring) (c : N) :
  trimStart s = c :: r -> isWhiteSpace c = false.
Proof.
  induction s as [|d s IH]; intros H; [discriminate H|].
  cbn [trimStart] in H. destruct (isWhiteSpace d) eqn:Hd; [exact (IH H)|].
  injection H as -> _. exact Hd.
Qed.

Lemma trim_nil (s : jsstring) :
  trim s = [] -> Forall (fun c => isWhiteSpace c = true) s.
Proof.
  unfold trim, trimEnd. intros H.
  destruct (trimStart s) as [|c r] eqn:Hs; [exact (trimStart_nil s Hs)|].
  exfalso.
  assert (Hr : trimStart (reverse (c :: r)) = []).
  { rewrite <- (reverse_involutive (trimStart (reverse (c :: r)))), H.
    reflexivity. }
  apply trimStart_nil in Hr. rewrite Forall_reverse in Hr.
  apply Forall_cons in Hr as [Hc _].
  rewrite (trimStart_head s r c Hs) in Hc. discriminate Hc.
Qed.

(** [trim] gives a truthy string exactly when some code unit of the input
    is not white space. *)
Lemma truthy_trim (s : jsstring) :
  truthy (trim s) = negb (forallb isWhiteSpace s).
Proof.
  destruct (forallb isWhiteSpace s) eqn:Hall.
  - rewrite forallb_forall, <- List.Forall_forall in Hall.
    rewrite (trim_blank s Hall). reflexivity.
  - destruct (trim s) as [|c r] eqn:Ht; [|reflexivity].
    apply trim_nil in Ht.
    rewrite List.Forall_forall, <- forallb_forall in Ht.
    congruence.
Qed.

Lemma length_replace_hyphen (s : jsstring) :
  length (replace (lit "-") (lit " ") s) = length s.
Proof.
  induction s as [|c s IH]; [reflexivity|].
  rewrite replace_hyphen_cons.
  destruct (hyphen =? c)%N; cbn [length]; [reflexivity|].
  f_equal. exact IH.
Qed.

Lemma length_replaceEvery (a b : N) (s : jsstring) :
  length (replaceEvery a b s) = length s.
Proof. unfold replaceEvery. apply length_map. Qed.

Lemma replaceEvery_hyphen_free (s : jsstring) :
  hyphen ∉ replaceEvery hyphen space s.
Proof.
  unfold replaceEvery. induction s as [|c s IH]; cbn [map].
  - apply not_elem_of_nil.
  - apply not_elem_of_cons. split; [|exact IH].
    destruct (N.eqb_spec c hyphen) as [_|Hne]; [discriminate|congruence].
Qed.

(** Replacing the first hyphen gives what replacing every hyphen gives
    only on a name with at most one hyphen. *)
Lemma replace_one_hyphen_inv (s : jsstring) :
  replace (lit "-") (lit " ") s = replaceEvery hyphen space s ->
  (count_occ N.eq_dec s hyphen <= 1)%nat.
Proof.
  induction s as [|c s IH]; intros H; [cbn; lia|].
  rewrite replace_hyphen_cons in H. cbn [count_occ].
  unfold replaceEvery in H. cbn [map] in H.
  fold (replaceEvery hyphen space s) in H.
  destruct (N.eq_dec c hyphen) as [->|Hne].
  - rewrite N.eqb_refl in H. injection H as H.
    assert (Hfree : hyphen ∉ s).
    { rewrite H. apply replaceEvery_hyphen_free. }
    rewrite list_elem_of_In, (count_occ_not_In N.eq_dec) in Hfree. lia.
  - destruct (N.eqb_spec hyphen c) as [E|_]; [congruence|].
    destruct (N.eqb_spec c hyphen) as [E|_]; [congruence|].
    injection H as H. exact (IH H).
Qed.

(** [join] is injective on arrays whose strings have the same lengths
    position by position. *)
Lemma join_inj (sep : jsstring) (l k : list jsstring) :
  Forall2 (fun a b => length a = length b) l k ->
  join sep l = join sep k -> l = k.
Proof.
  induction 1 as [|a b l k Hab Hlk IH]; intros H; [reflexivity|].
  destruct Hlk as [|a' b' l k Hab' Hlk].
  - cbn [join] in H. rewrite H. reflexivity.
  - change (join sep (a :: a' :: l)) with (a ++ sep ++ join sep (a' :: l)) in H.
    change (join sep (b :: b' :: k)) with (b ++ sep ++ join sep (b' :: k)) in H.
    apply app_inj_1 in H as [-> H]; [|exact Hab].
    apply app_inv_head in H. f_equal. apply IH. exact H.
Qed.

(** X1.  The abilities line is the fully normalised one (every hyphen a
    space) exactly for the creatures none of whose ability names has two
    hyphens or more. *)
Theorem abilitiesLine_spec_iff_one_hyphen (p : Pokemon) :
  abilitiesLine p = abilitiesLine_spec p <->
  Forall (fun a => (count_occ N.eq_dec (name (ability a)) hyphen <= 1)%nat)
         (abilities p).
Proof.
  split; [|apply abilitiesLine_one_hyphen].
  unfold abilitiesLine, abilitiesLine_spec. intros H.
  apply join_inj in H.
  - induction (abilities p) as [|a l IH]; [constructor|].
    cbn [map] in H. injection H as Ha Hl.
    constructor; [exact (replace_one_hyphen_inv _ Ha)|exact (IH Hl)].
  - clear H. induction (abilities p) as [|a l IH]; [constructor|].
    cbn [map]. constructor; [|exact IH].
    rewrite length_replace_hyphen, length_replaceEvery. reflexivity.
Qed.

(** *** The fetch routines *)

Lemma outcome_try_catch_finally (b h f : Async ()) :
  outcome (try_catch_finally b h f) =
    match outcome f with
    | Some _ => match outcome b with Some x => Some x | None => outcome h end
    | None => None
    end.
Proof.
  unfold try_catch_finally.
  destruct (outcome b) as [x|] eqn:Hb; cbn [outcome]; [rewrite Hb|];
    reflexivity.
Qed.

Lemma requests_fetchPokemonByName toLowerCase api (name : jsstring) :
  requests (trace (fetchPokemonByName toLowerCase api name)) =
    [pokemonEndpoint ++ toLowerCase name].
Proof.
  rewrite fetchPokemonByName_trace, !requests_app.
  destruct (nameResult api _); reflexivity.
Qed.

Lemma requests_fetchPokemonByType toLowerCase api (type : jsstring) :
  requests (trace (fetchPokemonByType toLowerCase api type)) =
    (typeEndpoint ++ toLowerCase type) ::
    match membership api (typeEndpoint ++ toLowerCase type) with
    | Some data => pokemonUrls data
    | None => []
    end.
Proof.
  rewrite fetchPokemonByType_trace, !requests_app.
  destruct (membership api _) as [data|]; [|reflexivity].
  rewrite !requests_app, requests_fetches.
  destruct (mapM (memberResult api) (pokemonUrls data));
    cbn [requests omap list_omap app]; rewrite !app_nil_r; reflexivity.
Qed.

(** X2.  A name lookup makes exactly one request, whatever comes back: the
    creature endpoint followed by the lower-cased name; and the state it
    leaves has the search term it started with. *)
Theorem fetchPokemonByName_one_request toLowerCase api (st : State)
    (name : jsstring) :
  requests (trace (fetchPokemonByName toLowerCase api name)) =
    [pokemonEndpoint ++ toLowerCase name] ∧
  searchTerm (settled st (fetchPokemonByName toLowerCase api name))
    = searchTerm st.
Proof.
  split; [apply requests_fetchPokemonByName|].
  rewrite settled_fetchPokemonByName. destruct (nameResult api _); reflexivity.
Qed.

(** X3.  A type lookup requests the type endpoint first and then, when
    the membership list arrived, the URLs of its first 20 members in list
    order, and nothing else: never more than 21 requests. *)
Theorem fetchPokemonByType_requests toLowerCase api (type : jsstring) :
  requests (trace (fetchPokemonByType toLowerCase api type)) =
    (typeEndpoint ++ toLowerCase type) ::
    match getType api (typeEndpoint ++ toLowerCase type) with
    | Some r =>
        if ok r then
          match body r with
          | Some data => (fun m => url (pokemon_ref m)) <$> take 20 (pokemon data)
          | None => []
          end
        else []
    | None => []
    end ∧
  length (requests (trace (fetchPokemonByType toLowerCase api type))) <= 21.
Proof.
  pose proof (requests_fetchPokemonByType toLowerCase api type) as E.
  split.
  - rewrite E. unfold membership, pokemonUrls. f_equal.
    destruct (getType api _) as [r|]; cbn [mbind option_bind]; [|reflexivity].
    destruct (ok r); [|reflexivity].
    destruct (body r); reflexivity.
  - rewrite E. cbn [length].
    destruct (membership api _) as [data|]; [|cbn [length]; lia].
    rewrite length_pokemonUrls. lia.
Qed.

(** X4.  When the membership request rejects, answers with a status
    outside 200-299 or with a body that does not parse, the type lookup
    asks for no member at all and settles with the type-browse message and
    an empty result set. *)
Theorem membership_failure_fails_lookup toLowerCase api (st : State)
    (type : jsstring) :
  (getType api (typeEndpoint ++ toLowerCase type) = None ∨
   exists r, getType api (typeEndpoint ++ toLowerCase type) = Some r ∧
             (ok r = false ∨ body r = None)) ->
  requests (trace (fetchPokemonByType toLowerCase api type))
    = [typeEndpoint ++ toLowerCase type] ∧
  error (settled st (fetchPokemonByType toLowerCase api type))
    = Some typeFailedMessage ∧
  pokemonList (settled st (fetchPokemonByType toLowerCase api type)) = [].
Proof.
  intros H.
  assert (Hm : membership api (typeEndpoint ++ toLowerCase type) = None).
  { unfold membership. destruct H as [->|(r & -> & [Hok|Hb])];
      cbn [mbind option_bind]; [reflexivity| |].
    - rewrite Hok. reflexivity.
    - destruct (ok r); [exact Hb|reflexivity]. }
  rewrite settled_fetchPokemonByType, fetchPokemonByType_trace, Hm.
  repeat split.
Qed.

Lemma membership_failure_fails_lookup_witness :
  requests (trace (fetchPokemonByType asciiToLowerCase pokedex (lit "Fire")))
    = [typeEndpoint ++ asciiToLowerCase (lit "Fire")] ∧
  error (settled initialState
           (fetchPokemonByType asciiToLowerCase pokedex (lit "Fire")))
    = Some typeFailedMessage ∧
  pokemonList (settled initialState
           (fetchPokemonByType asciiToLowerCase pokedex (lit "Fire"))) = [].
Proof.
  apply (membership_failure_fails_lookup asciiToLowerCase pokedex
           initialState (lit "Fire")).
  right. exists (MkResponse 404%N None).
  split; [reflexivity|]. left. reflexivity.
Defined.

Lemma memberResult_withMemberStatus (f : N -> N) api (u : jsstring) :
  memberResult (withMemberStatus f api) u = memberResult api u.
Proof.
  unfold memberResult, withMemberStatus. cbn [getPokemon].
  destruct (getPokemon api u); reflexivity.
Qed.

(** X5.  The status of a per-member response is never looked at: a type
    lookup settles in the same state whatever statuses the member responses
    carry, as long as their bodies are the same. *)
Theorem member_status_ignored toLowerCase api (f : N -> N) (st : State)
    (type : jsstring) :
  settled st (fetchPokemonByType toLowerCase (withMemberStatus f api) type) =
  settled st (fetchPokemonByType toLowerCase api type).
Proof.
  rewrite !settled_fetchPokemonByType.
  change (membership (withMemberStatus f api)) with (membership api).
  destruct (membership api _) as [data|]; [|reflexivity].
  cbn [mbind option_bind].
  replace (mapM (memberResult (withMemberStatus f api)) (pokemonUrls data))
    with (mapM (memberResult api) (pokemonUrls data)); [reflexivity|].
  induction (pokemonUrls data) as [|u us IH]; [reflexivity|].
  cbn [mapM]. rewrite IH, memberResult_withMemberStatus. reflexivity.
Qed.

Lemma searchTerm_settled toLowerCase api (st : State) (c : Lookup) :
  searchTerm (settled st (perform toLowerCase api c)) = searchTerm st.
Proof.
  destruct c; cbn [perform].
  - rewrite settled_fetchPokemonByName. destruct (nameResult api _); reflexivity.
  - rewrite settled_fetchPokemonByType.
    destruct (_ ≫= _); reflexivity.
Qed.

(** Two starting states with the same search term are settled alike. *)
Lemma settled_same_searchTerm toLowerCase api (st st' : State) (c : Lookup) :
  searchTerm st = searchTerm st' ->
  settled st (perform toLowerCase api c) =
  settled st' (perform toLowerCase api c).
Proof.
  intros H. destruct c; cbn [perform].
  - rewrite !settled_fetchPokemonByName, H. reflexivity.
  - rewrite !settled_fetchPokemonByType, H. reflexivity.
Qed.

(** X6.  Results replace, they never merge: a lookup run after another
    one has settled leaves exactly the state it would have left without
    the first (whatever server each one talked to), and the search term of
    the starting state is kept throughout. *)
Theorem later_lookup_replaces_earlier toLowerCase api1 api2 (st : State)
    (c1 c2 : Lookup) :
  settled (settled st (perform toLowerCase api1 c1))
          (perform toLowerCase api2 c2)
    = settled st (perform toLowerCase api2 c2) ∧
  searchTerm (settled st (perform toLowerCase api2 c2)) = searchTerm st.
Proof.
  split; [|apply searchTerm_settled].
  apply settled_same_searchTerm, searchTerm_settled.
Qed.

(** X7.  The search handler always calls [preventDefault] first.  It makes
    a request exactly when the search term has a code unit that is not
    white space: then the one request of [fetchPokemonByName] on the term as
    typed, leaving the state that routine leaves; otherwise nothing. *)
Theorem handleSearch_requests_iff_nonblank toLowerCase api (st : State) :
  head (trace (handleSearch toLowerCase api st)) = Some PreventDefault ∧
  requests (trace (handleSearch toLowerCase api st)) =
    (if forallb isWhiteSpace (searchTerm st) then []
     else [pokemonEndpoint ++ toLowerCase (searchTerm st)]) ∧
  settled st (handleSearch toLowerCase api st) =
    (if forallb isWhiteSpace (searchTerm st) then st
     else settled st (fetchPokemonByName toLowerCase api (searchTerm st))).
Proof.
  unfold handleSearch, settled.
  rewrite trace_bind, truthy_trim.
  cbn [preventDefault emit trace outcome].
  destruct (forallb isWhiteSpace (searchTerm st)); cbn [negb].
  - repeat split.
  - cbn [spawn trace]. split; [reflexivity|]. split; [|reflexivity].
    rewrite requests_app, requests_fetchPokemonByName. reflexivity.
Qed.

(** X12.  Neither fetch routine ever rejects: every failure inside is
    caught, so the promise a caller drops is always fulfilled. *)
Theorem perform_never_rejects toLowerCase api (c : Lookup) :
  outcome (perform toLowerCase api c) = Some ().
Proof.
  destruct c; cbn [perform]; unfold fetchPokemonByName, fetchPokemonByType;
    rewrite outcome_try_catch_finally; cbn [setIsLoading emit outcome];
    match goal with
    | |- match outcome ?b with _ => _ end = _ =>
        destruct (outcome b) as [[]|]; reflexivity
    end.
Qed.

(** X13.  The lookups do not see letter case: two names (or two types)
    with the same lower-casing make the same requests and leave the same
    state. *)
Theorem lookup_ignores_case toLowerCase api (a b : jsstring) :
  toLowerCase a = toLowerCase b ->
  fetchPokemonByName toLowerCase api a = fetchPokemonByName toLowerCase api b ∧
  fetchPokemonByType toLowerCase api a = fetchPokemonByType toLowerCase api b.
Proof.
  intros H. unfold fetchPokemonByName, fetchPokemonByType.
  rewrite H. split; reflexivity.
Qed.

Lemma lookup_ignores_case_witness :
  fetchPokemonByName asciiToLowerCase pokedex (lit "Charizard")
    = fetchPokemonByName asciiToLowerCase pokedex (lit "CHARIZARD") ∧
  fetchPokemonByType asciiToLowerCase pokedex (lit "Charizard")
    = fetchPokemonByType asciiToLowerCase pokedex (lit "CHARIZARD").
Proof.
  apply (lookup_ignores_case asciiToLowerCase pokedex
           (lit "Charizard") (lit "CHARIZARD")).
  vm_compute. reflexivity.
Defined.

(** *** The rendered page *)

Lemma renderCard_None (p : Pokemon) : renderCard p = None <-> types p = [].
Proof.
  unfold renderCard, typeColor, primaryType.
  destruct (types p); cbn; split; (reflexivity || discriminate).
Qed.

(** X11.  For result lists of the declared [Pokemon] shape, the render
    throws exactly when some creature has no type.  When it does not
    throw, the cards are the creatures in list order, one each, keyed by
    the creature's id, titled with its name, with one chip per type, and
    the header gets what [typeColors[first type] || 'bg-gray-500'] gives:
    the table's colour for one of its keys, the value inherited from
    [Object.prototype] for one of its names, the fallback otherwise. *)
Theorem render_throws_iff_untyped (st : State) :
  (render st = None <-> Exists (fun p => types p = []) (pokemonList st)) ∧
  (forall v, render st = Some v ->
     Forall2 (fun p c =>
                card_key c = id p ∧ card_title c = pname p ∧
                card_chips c = (fun t => name (type t)) <$> types p ∧
                exists t, head (types p) = Some t ∧
                  card_color c =
                    match typeColors_own !! name (type t) with
                    | Some col => OwnString col
                    | None =>
                        if bool_decide (name (type t) ∈ objectPrototype)
                        then Inherited (name (type t))
                        else OwnString (lit "bg-gray-500")
                    end)
             (pokemonList st) (cards v)).
Proof.
  unfold render. split.
  - destruct (mapM renderCard (pokemonList st)) as [cs|] eqn:E;
      cbn [mbind option_bind].
    + split; [discriminate|]. intros H. exfalso.
      assert (N : mapM renderCard (pokemonList st) = None).
      { apply mapM_None_2. eapply Exists_impl; [exact H|].
        intros p Hp. apply renderCard_None, Hp. }
      congruence.
    + split; [|reflexivity]. intros _.
      apply mapM_None_1 in E. eapply Exists_impl; [exact E|].
      intros p Hp. apply renderCard_None, Hp.
  - intros v Hv.
    destruct (mapM renderCard (pokemonList st)) as [cs|] eqn:E;
      cbn [mbind option_bind] in Hv; [|discriminate Hv].
    injection Hv as <-. cbn [cards].
    apply mapM_Some_1 in E. eapply Forall2_impl; [exact E|].
    intros p c Hc. unfold renderCard, typeColor, primaryType in Hc.
    destruct (types p) as [|t ts] eqn:Ht; [discriminate Hc|].
    cbn [fmap option_fmap option_map mbind option_bind] in Hc.
    injection Hc as <-.
    cbn [card_key card_title card_chips card_color].
    repeat split.
    exists t. split; [reflexivity|]. apply colorOf_cases.
Qed.

Lemma typeButtons_checked :
  Forall (fun b => asciiToLowerCase (button_type b) = button_type b ∧
                   colorOf (button_type b) = OwnString (button_color b))
         typeButtons.
Proof. apply (bool_decide_unpack _). vm_compute. exact I. Qed.

(** X8.  Every type button asks for its own type and wears its own colour:
    the types of the table are already in lower case, so a click requests
    the type endpoint followed by the button's type, and the table lookup
    of that type is the button's colour.  There are 18 buttons and no type
    comes twice. *)
Theorem type_button_requests_own_type (api : Remote) (b : TypeButton) :
  b ∈ typeButtons ->
  head (requests (trace (onTypeClick asciiToLowerCase api (button_type b))))
    = Some (typeEndpoint ++ button_type b) ∧
  colorOf (button_type b) = OwnString (button_color b) ∧
  length typeButtons = 18 ∧
  NoDup (button_type <$> typeButtons).
Proof.
  intros Hb.
  pose proof typeButtons_checked as H. rewrite Forall_forall in H.
  destruct (H b Hb) as [Hlow Hcol].
  split; [|split; [exact Hcol|split; [reflexivity|]]].
  - unfold onTypeClick. cbn [spawn trace].
    rewrite requests_fetchPokemonByType.
    cbn [head]. rewrite Hlow. reflexivity.
  - apply (bool_decide_unpack _). vm_compute. exact I.
Qed.

Lemma type_button_requests_own_type_witness :
  head (requests (trace (onTypeClick asciiToLowerCase crowded (lit "water"))))
    = Some (typeEndpoint ++ lit "water") ∧
  colorOf (lit "water") = OwnString (lit "bg-[#6890F0]") ∧
  length typeButtons = 18 ∧
  NoDup (button_type <$> typeButtons).
Proof.
  apply (type_button_requests_own_type crowded
           {| button_type := lit "water"; button_color := lit "bg-[#6890F0]" |}).
  vm_compute. apply list_elem_of_further, list_elem_of_here.
Defined.

(** What a lookup leaves: the search term kept, the flag down, and either
    no error, or one of the two messages with no result. *)
Lemma settled_cases toLowerCase api (st : State) (c : Lookup) :
  exists (l : list Pokemon) (e : option jsstring),
    settled st (perform toLowerCase api c) =
      {| searchTerm := searchTerm st; pokemonList := l;
         isLoading := false; error := e |} ∧
    (e = None ∨
     (l = [] ∧ (e = Some notFoundMessage ∨ e = Some typeFailedMessage))).
Proof.
  destruct c; cbn [perform].
  - rewrite settled_fetchPokemonByName.
    destruct (nameResult api _) as [d|]; eexists _, _;
      (split; [reflexivity|]); [left|right]; auto.
  - rewrite settled_fetchPokemonByType.
    destruct (_ ≫= _) as [l|]; eexists _, _;
      (split; [reflexivity|]); [left|right]; auto.
Qed.

(** X9.  The page in the state a lookup leaves when it settles, whatever
    other events fell between its start and its settlement, whenever it
    renders: no spinner, the submit button enabled and labelled [Search],
    and the banner showing the lookup's own message when it failed and
    otherwise what the error left by those events shows.  When none of
    those events set the error (in particular when the lookup ran alone),
    the banner shows exactly the lookup's own error, nothing or one of the
    two messages, and never together with cards. *)
Theorem view_after_lookup toLowerCase api (st : State) (c : Lookup)
    (mid : list Event) (v : View) :
  render (run st (duringWhich (trace (perform toLowerCase api c)) mid))
    = Some v ->
  loadingShown v = false ∧
  submitDisabled v = false ∧
  submitLabel v = lit "Search" ∧
  inputValue v
    = searchTerm (run (run st [SetIsLoading true; SetError None]) mid) ∧
  errorShown v =
    match error (settled st (perform toLowerCase api c)) with
    | Some m => Some m
    | None =>
        errorBanner
          (error (run (run st [SetIsLoading true; SetError None]) mid))
    end ∧
  (Forall keepsError mid ->
   errorShown v = error (settled st (perform toLowerCase api c)) ∧
   (errorShown v = None ∨
    (cards v = [] ∧ (errorShown v = Some notFoundMessage ∨
                     errorShown v = Some typeFailedMessage)))).
Proof.
  rewrite run_duringWhich.
  destruct (settled_cases toLowerCase api st c) as (l & e & -> & He).
  unfold render. cbn [pokemonList isLoading error searchTerm].
  intros Hv.
  destruct (mapM renderCard l) as [cs|] eqn:E;
    cbn [mbind option_bind] in Hv; [|discriminate Hv].
  injection Hv as <-.
  cbn [loadingShown submitDisabled submitLabel inputValue errorShown cards].
  do 4 (split; [reflexivity|]).
  split.
  - destruct He as [->|[_ [->| ->]]]; reflexivity.
  - intros Hmid. rewrite (run_keepsError _ _ Hmid).
    cbn [run foldl apply error].
    destruct He as [->|[-> [->| ->]]].
    + split; [reflexivity|left; reflexivity].
    + cbn in E. injection E as <-.
      split; [reflexivity|right; split; [reflexivity|left; reflexivity]].
    + cbn in E. injection E as <-.
      split; [reflexivity|right; split; [reflexivity|right; reflexivity]].
Qed.

Lemma view_after_lookup_witness :
  exists v : View,
    render (run initialState
              (duringWhich
                 (trace (perform asciiToLowerCase pokedex (ByName (lit "6"))))
                 [SetSearchTerm (lit "6 ")])) = Some v ∧
    loadingShown v = false ∧
    submitDisabled v = false ∧
    submitLabel v = lit "Search" ∧
    inputValue v
      = searchTerm (run (run initialState [SetIsLoading true; SetError None])
                        [SetSearchTerm (lit "6 ")]) ∧
    errorShown v =
      match error (settled initialState
                     (perform asciiToLowerCase pokedex (ByName (lit "6")))) with
      | Some m => Some m
      | None =>
          errorBanner
            (error (run (run initialState [SetIsLoading true; SetError None])
                        [SetSearchTerm (lit "6 ")]))
      end ∧
    (Forall keepsError [SetSearchTerm (lit "6 ")] ->
     errorShown v = error (settled initialState
                     (perform asciiToLowerCase pokedex (ByName (lit "6")))) ∧
     (errorShown v = None ∨
      (cards v = [] ∧ (errorShown v = Some notFoundMessage ∨
                       errorShown v = Some typeFailedMessage)))).
Proof.
  eexists. split; [vm_compute; reflexivity|].
  refine (view_after_lookup asciiToLowerCase pokedex initialState
            (ByName (lit "6")) [SetSearchTerm (lit "6 ")] _ _).
  vm_compute. reflexivity.
Defined.

Lemma requests_result_updates (upd : list Event) :
  Forall isResultUpdate upd -> requests upd = [].
Proof.
  induction 1 as [|e upd He _ IH]; [reflexivity|].
  destruct e; simpl in He; try contradiction; exact IH.
Qed.

(** X10.  The page while a lookup is in flight and nothing else has
    updated the state since it started, that is at every point of the
    lookup's own trace from its two entry updates up to its last request:
    the page as it was before the lookup, with the spinner on, the submit
    button disabled and labelled [Searching...], and no error banner; the
    cards of the previous results stay. *)
Theorem view_while_loading toLowerCase api (st : State) (c : Lookup) (k : nat) :
  2 <= k <= 2 + length (requests (trace (perform toLowerCase api c))) ->
  render (run st (take k (trace (perform toLowerCase api c))))
    = loadingView <$> render st.
Proof.
  destruct (perform_trace_shape toLowerCase api c)
    as (reqs & upd & -> & _ & Hupd).
  rewrite !requests_app, requests_fetches, (requests_result_updates _ Hupd).
  cbn [requests omap list_omap app length]. rewrite app_nil_r.
  intros [Hlo Hhi].
  destruct k as [|[|k]]; [lia|lia|].
  cbn [app take].
  rewrite take_app_le by (rewrite length_fmap; lia).
  rewrite <- fmap_take.
  change (run st (SetIsLoading true :: SetError None :: (Fetch <$> take k reqs)))
    with (run (run st [SetIsLoading true; SetError None])
              (Fetch <$> take k reqs)).
  rewrite run_fetches. unfold render.
  cbn [run foldl apply pokemonList isLoading error searchTerm].
  destruct (mapM renderCard (pokemonList st)); reflexivity.
Qed.

Lemma view_while_loading_witness :
  render (run (settled initialState
                 (perform asciiToLowerCase pokedex (ByName (lit "6"))))
              (take 5 (trace (perform asciiToLowerCase crowded
                                (ByType (lit "water"))))))
    = loadingView <$> render (settled initialState
                 (perform asciiToLowerCase pokedex (ByName (lit "6")))).
Proof.
  apply (view_while_loading asciiToLowerCase crowded
           (settled initialState
              (perform asciiToLowerCase pokedex (ByName (lit "6"))))
           (ByType (lit "water")) 5).
  vm_compute. lia.
Defined.

(** *** Two lookups in flight at once *)

(** X14.  A stale response clobbers a fresh one.  When lookup B starts and
    settles while lookup A, started first, is still waiting, the page ends
    with A's results, not B's; the error is A's when A failed, and
    otherwise whatever B left. *)
Theorem stale_lookup_overwrites_fresh toLowerCase api (st : State)
    (cA cB : Lookup) :
  run st (settlesLast (trace (perform toLowerCase api cA))
                      (trace (perform toLowerCase api cB))) =
    {| searchTerm := searchTerm st;
       pokemonList := pokemonList (settled st (perform toLowerCase api cA));
       isLoading := false;
       error :=
         match error (settled st (perform toLowerCase api cA)) with
         | Some m => Some m
         | None => error (settled st (perform toLowerCase api cB))
         end |}.
Proof.
  destruct (perform_trace_settlement toLowerCase api cA)
    as (uA & moreA & lA & eA & -> & HA).
  destruct (perform_trace_settlement toLowerCase api cB)
    as (uB & moreB & lB & eB & -> & HB).
  rewrite HA, HB. cbn [pokemonList error].
  unfold settlesLast. cbn [app take drop]. rewrite take_0, drop_0.
  cbn [app].
  change (run st (SetIsLoading true :: SetError None :: Fetch uA ::
                  SetIsLoading true :: SetError None :: Fetch uB :: ?t))
    with (run (run st [SetIsLoading true; SetError None]) t).
  rewrite !run_app, !run_fetches.
  destruct eA, eB; reflexivity.
Qed.

(** X15.  A stale error stays over fresh results.  When lookup A settles
    between the start and the settlement of lookup B, the page ends with
    B's results; B's settlement touches the error only when B fails, so
    after a successful B the error is the one A left, and the banner of a
    failed A shows above the cards of B.  Between the two settlements the
    loading flag is already down although B is still in flight. *)
Theorem stale_error_over_fresh_results toLowerCase api (st : State)
    (cA cB : Lookup) :
  run st (settlesFirst (trace (perform toLowerCase api cA))
                       (trace (perform toLowerCase api cB))) =
    {| searchTerm := searchTerm st;
       pokemonList := pokemonList (settled st (perform toLowerCase api cB));
       isLoading := false;
       error :=
         match error (settled st (perform toLowerCase api cB)) with
         | Some m => Some m
         | None => error (settled st (perform toLowerCase api cA))
         end |} ∧
  isLoading (run st (take 3 (trace (perform toLowerCase api cA)) ++
                     take 3 (trace (perform toLowerCase api cB)) ++
                     drop 3 (trace (perform toLowerCase api cA)))) = false.
Proof.
  destruct (perform_trace_settlement toLowerCase api cA)
    as (uA & moreA & lA & eA & -> & HA).
  destruct (perform_trace_settlement toLowerCase api cB)
    as (uB & moreB & lB & eB & -> & HB).
  rewrite HA, HB. cbn [pokemonList error].
  unfold settlesFirst. cbn [app take drop]. rewrite !take_0, !drop_0.
  cbn [app].
  split.
  - change (run st (SetIsLoading true :: SetError None :: Fetch uA ::
                    SetIsLoading true :: SetError None :: Fetch uB :: ?t))
      with (run (run st [SetIsLoading true; SetError None]) t).
    rewrite !run_app, !run_fetches.
    destruct eA, eB; reflexivity.
  - change (run st (SetIsLoading true :: SetError None :: Fetch uA ::
                    SetIsLoading true :: SetError None :: Fetch uB :: ?t))
      with (run (run st [SetIsLoading true; SetError None]) t).
    rewrite !run_app, !run_fetches.
    destruct eA; reflexivity.
Qed.

(** A search that fails while the type browsed next is loading: the
    not-found banner ends up over the cards of the type. *)
Example failed_search_then_browse :
  error (run initialState
     (settlesFirst
        (trace (perform asciiToLowerCase fireOnly (ByName (lit "notapokemon"))))
        (trace (perform asciiToLowerCase fireOnly (ByType (lit "fire"))))))
    = Some notFoundMessage ∧
  pokemonList (run initialState
     (settlesFirst
        (trace (perform asciiToLowerCase fireOnly (ByName (lit "notapokemon"))))
        (trace (perform asciiToLowerCase fireOnly (ByType (lit "fire"))))))
    = [charizard].
Proof. split; vm_compute; reflexivity. Qed.
